(** * Pattern-Strategy-TextFormatter: the strategies, the context and main

    A shallow embedding of [Pattern-Strategy-TextFormatter.cpp]:
    the three [ITextFormatter] strategies, the [TextProcessor] context that
    owns at most one of them, and the driver in [main].

    - [std::string] is a [list ascii]: a sequence of 8-bit characters that the
      range-based [for (char& c : result)] reads and overwrites in place,
      position by position ([!!] and [<[i:=c]>]).
    - [<cctype>] works on [int]: every call [toupper(c)] converts the [char]
      to [int] first and the assignment [c = ...] converts back.  Whether
      [char] is signed is left to the platform ([Platform]).
    - [cout] is the sequence of characters written so far; [TextProcessor]'s
      methods and [main] are written in a small state monad.
    - The strategies are embedded twice: as the bytes they compute, and
      ([Checked]) with every <cctype> call checked against what the C
      library accepts, so that a call outside the contract of <cctype>
      shows as no result. *)

From Stdlib Require Import ZArith Ascii String.
From stdpp Require Import base list.

Local Open Scope Z_scope.

Abbreviation char := ascii (only parsing).
Abbreviation std_string := (list ascii) (only parsing).

(** String literals of the source, as [std::string] values. *)
Abbreviation str := list_ascii_of_string (only parsing).

(** ** The platform: signedness of plain [char] *)

Class Platform := { char_signed : bool }.

Definition signed_char_platform : Platform := {| char_signed := true |}.
Definition unsigned_char_platform : Platform := {| char_signed := false |}.

(** ** Characters and their conversions to and from [int] *)

Module Char.

(** The byte a character holds, 0..255. *)
Definition code (c : char) : Z := Z.of_N (N_of_ascii c).

Section Conversions.
Context `{Platform}.

(** [char] to [int], as happens when a [char] is passed to [toupper],
    [tolower] or [isspace]: bytes from 128 on are negative where [char] is
    signed. *)
Definition to_int (c : char) : Z :=
  if char_signed && (128 <=? code c) then code c - 256 else code c.

(** [int] to [char], as happens in [c = toupper(c)]: reduction modulo 256. *)
Definition of_int (z : Z) : char := ascii_of_N (Z.to_N (z mod 256)).

End Conversions.
End Char.

(** ** <cctype> in the "C" locale

    The program never calls [setlocale], so the locale is "C": the letters
    are 'A'..'Z' and 'a'..'z', the whitespace characters are space and
    '\t' '\n' '\v' '\f' '\r'.  Every other value is no letter and no
    whitespace, and [toupper] and [tolower] give it back.  That includes the
    negative values a signed [char] yields for the bytes from 128 on: the
    C standard leaves such a call open, and the tables of the C locale hand
    the same byte back, which is what is modelled here. *)

Module Cctype.

Definition isspace (c : Z) : bool := (c =? 32) || ((9 <=? c) && (c <=? 13)).

Definition isupper (c : Z) : bool := (65 <=? c) && (c <=? 90).

Definition islower (c : Z) : bool := (97 <=? c) && (c <=? 122).

Definition toupper (c : Z) : Z := if islower c then c - 32 else c.

Definition tolower (c : Z) : Z := if isupper c then c + 32 else c.

End Cctype.

(** ** The range-based for loop over a string, by reference

    [for (char& c : result) body] visits the positions [0 .. size-1] of
    [result] in order; the body reads the character at the position,
    may overwrite it, and may update the variables of the enclosing
    function ([St]). *)

Section RangeFor.
Context {St : Type}.
Variable body : St -> char -> St * char.

Definition range_for_step (acc : St * std_string) (i : nat) : St * std_string :=
  let '(st, result) := acc in
  match result !! i with
  | Some c => let '(st', c') := body st c in (st', <[i := c']> result)
  | None => (st, result)
  end.

Definition range_for (st : St) (result : std_string) : St * std_string :=
  foldl range_for_step (st, result) (seq 0 (length result)).

(** The same loop as a transducer: one character in, one character out,
    the loop-carried variables threaded along. *)
Fixpoint transduce (st : St) (s : std_string) : St * std_string :=
  match s with
  | [] => (st, [])
  | c :: s' =>
      let '(st1, c') := body st c in
      let '(st2, r) := transduce st1 s' in
      (st2, c' :: r)
  end.

End RangeFor.

(** ** The strategies *)

(** [class ITextFormatter]: one pure virtual method and no data member. *)
Module ITextFormatter.
Record t := { format : std_string -> std_string }.
End ITextFormatter.

Module UpperCaseFormatter.
Section WithPlatform.
Context `{Platform}.

Definition format (text : std_string) : std_string :=
  let result := text in
  snd (range_for
         (fun (_ : unit) c => (tt, Char.of_int (Cctype.toupper (Char.to_int c))))
         tt result).

Definition new : ITextFormatter.t := {| ITextFormatter.format := format |}.

End WithPlatform.
End UpperCaseFormatter.

Module LowerCaseFormatter.
Section WithPlatform.
Context `{Platform}.

Definition format (text : std_string) : std_string :=
  let result := text in
  snd (range_for
         (fun (_ : unit) c => (tt, Char.of_int (Cctype.tolower (Char.to_int c))))
         tt result).

Definition new : ITextFormatter.t := {| ITextFormatter.format := format |}.

End WithPlatform.
End LowerCaseFormatter.

Module TitleCaseFormatter.
Section WithPlatform.
Context `{Platform}.

(** The body of the loop; [capitalize] is the flag declared before it. *)
Definition body (capitalize : bool) (c : char) : bool * char :=
  if Cctype.isspace (Char.to_int c) then (true, c)
  else if capitalize then (false, Char.of_int (Cctype.toupper (Char.to_int c)))
  else (capitalize, Char.of_int (Cctype.tolower (Char.to_int c))).

Definition format (text : std_string) : std_string :=
  let result := text in
  let capitalize := true in
  snd (range_for body capitalize result).

Definition new : ITextFormatter.t := {| ITextFormatter.format := format |}.

End WithPlatform.
End TitleCaseFormatter.

(** ** A state monad for the member functions and for main *)

Definition State (S A : Type) : Type := S -> A * S.

#[global] Instance state_ret {S} : MRet (State S) := fun A a s => (a, s).

#[global] Instance state_bind {S} : MBind (State S) :=
  fun A B k m s => let '(a, s') := m s in k a s'.

Definition get {S} : State S S := fun s => (s, s).

Definition put {S} (s : S) : State S unit := fun _ => (tt, s).

(** ** The context *)

Module TextProcessor.

(** [unique_ptr<ITextFormatter> formatter]: [None] is [nullptr]. *)
Record t := { formatter : option ITextFormatter.t }.

(** [TextProcessor() : formatter(nullptr) {}] *)
Definition new : t := {| formatter := None |}.

(** [formatter = move(f)]: the slot takes [f], the strategy held before is
    released. *)
Definition setFormatter (f : option ITextFormatter.t) : State t unit :=
  put {| formatter := f |}.

Definition format (text : std_string) : State t std_string :=
  this ← get;
  match formatter this with
  | Some f => mret (ITextFormatter.format f text)
  | None => mret text
  end.

End TextProcessor.

(** ** main *)

Module Main.

(** What main can touch: its local [processor] and the characters written
    to [cout]. *)
Record World := { processor : TextProcessor.t; cout : std_string }.

(** Where main starts: [TextProcessor processor;] has run its constructor
    and nothing has been written yet. *)
Definition initial : World := {| processor := TextProcessor.new; cout := [] |}.

(** [cout << s] *)
Definition print (s : std_string) : State World unit :=
  fun w => (tt, {| processor := processor w; cout := cout w ++ s |}).

(** A member function called on the local [processor]. *)
Definition on_processor {A} (m : State TextProcessor.t A) : State World A :=
  fun w => let '(a, p) := m (processor w) in
           (a, {| processor := p; cout := cout w |}).

(** The newline character written as [\n] in the source's literals. *)
Definition nl : char := "010"%char.

Section WithPlatform.
Context `{Platform}.

(** [line] is what [getline(cin, input)] stores in [input] and [number] is
    what [cin >> choice] stores in [choice]. *)
Definition main (line : std_string) (number : Z) : State World Z :=
  print (str "Enter a sentence: ") ;;
  let input := line in
  print (nl :: str "Choose a format:" ++ [nl]) ;;
  print (str "1) Uppercase" ++ [nl]) ;;
  print (str "2) Lowercase" ++ [nl]) ;;
  print (str "3) Title Case" ++ [nl]) ;;
  print (str "Enter choice (1-3): ") ;;
  let choice := number in
  match choice with
  | 1 => on_processor (TextProcessor.setFormatter (Some UpperCaseFormatter.new))
  | 2 => on_processor (TextProcessor.setFormatter (Some LowerCaseFormatter.new))
  | 3 => on_processor (TextProcessor.setFormatter (Some TitleCaseFormatter.new))
  | _ => print (str "Invalid choice. Using default (no formatting)." ++ [nl])
  end ;;
  print (nl :: str "Formatted output:" ++ [nl]) ;;
  r ← on_processor (TextProcessor.format input);
  print r ;;
  print [nl] ;;
  mret 0.

End WithPlatform.
End Main.

(** ** The contract of <cctype>

    The C standard defines [isspace], [toupper] and [tolower] for an
    argument that is EOF or the value of an unsigned char.  What a call
    with another argument does is left to the library: one whose tables
    also cover the negative values of a signed char returns (so the glibc
    tables, -128..255), one that checks the contract stops the program (an
    asserting debug runtime).  [ctype_accepts] tells for which arguments
    the library at hand returns. *)

Class CLibrary := { ctype_accepts : Z -> bool }.

(** The macros of <cstdio> and <climits>, for 8-bit characters. *)
Definition EOF : Z := -1.
Definition UCHAR_MAX : Z := 255.
Definition SCHAR_MIN : Z := -128.

Definition in_contract (c : Z) : bool :=
  (c =? EOF) || ((0 <=? c) && (c <=? UCHAR_MAX)).

(** A library that returns for the arguments of the contract only. *)
Definition strict_library : CLibrary := {| ctype_accepts := in_contract |}.

(** A library whose tables cover every value of signed and unsigned char. *)
Definition table_library : CLibrary :=
  {| ctype_accepts := fun c => (SCHAR_MIN <=? c) && (c <=? UCHAR_MAX) |}.

(** The library returns at least where the standard says it does. *)
Definition honours_contract (L : CLibrary) : Prop :=
  forall c, in_contract c = true -> ctype_accepts c = true.

(** ** The strategies again, each <cctype> call checked against the library

    The same three member functions, with a result only if every call of
    a <cctype> function made on the way returns. *)

Module Checked.

(** A call [f(c)] of a <cctype> function [f]. *)
Definition call `{CLibrary} {A} (f : Z -> A) (c : Z) : option A :=
  if ctype_accepts c then Some (f c) else None.

Section RangeFor.
Context {St : Type}.
Variable body : St -> char -> option (St * char).

Definition range_for_step (acc : St * std_string) (i : nat) : option (St * std_string) :=
  let '(st, result) := acc in
  match result !! i with
  | Some c => r ← body st c; Some (r.1, <[i := r.2]> result)
  | None => Some (st, result)
  end.

Definition range_for (st : St) (result : std_string) : option (St * std_string) :=
  foldl (fun acc i => a ← acc; range_for_step a i)
        (Some (st, result)) (seq 0 (length result)).

Fixpoint transduce (st : St) (s : std_string) : option (St * std_string) :=
  match s with
  | [] => Some (st, [])
  | c :: s' =>
      r ← body st c;
      t ← transduce r.1 s';
      Some (t.1, r.2 :: t.2)
  end.

End RangeFor.

Module UpperCaseFormatter.
Section WithPlatform.
Context `{Platform} `{CLibrary}.

Definition format (text : std_string) : option std_string :=
  let result := text in
  snd <$> range_for
            (fun (_ : unit) c =>
               u ← call Cctype.toupper (Char.to_int c); Some (tt, Char.of_int u))
            tt result.

End WithPlatform.
End UpperCaseFormatter.

Module LowerCaseFormatter.
Section WithPlatform.
Context `{Platform} `{CLibrary}.

Definition format (text : std_string) : option std_string :=
  let result := text in
  snd <$> range_for
            (fun (_ : unit) c =>
               l ← call Cctype.tolower (Char.to_int c); Some (tt, Char.of_int l))
            tt result.

End WithPlatform.
End LowerCaseFormatter.

Module TitleCaseFormatter.
Section WithPlatform.
Context `{Platform} `{CLibrary}.

Definition body (capitalize : bool) (c : char) : option (bool * char) :=
  space ← call Cctype.isspace (Char.to_int c);
  if space : bool then Some (true, c)
  else if capitalize
       then u ← call Cctype.toupper (Char.to_int c); Some (false, Char.of_int u)
       else l ← call Cctype.tolower (Char.to_int c); Some (capitalize, Char.of_int l).

Definition format (text : std_string) : option std_string :=
  let result := text in
  let capitalize := true in
  snd <$> range_for body capitalize result.

End WithPlatform.
End TitleCaseFormatter.

End Checked.

(** The library accepts [c], passed as a plain [char]. *)
Definition accepted `{Platform} `{CLibrary} (c : char) : bool :=
  ctype_accepts (Char.to_int c).

(** The three transformations all return on [s]. *)
Definition formats_defined `{Platform} `{CLibrary} (s : std_string) : Prop :=
  is_Some (Checked.UpperCaseFormatter.format s) /\
  is_Some (Checked.LowerCaseFormatter.format s) /\
  is_Some (Checked.TitleCaseFormatter.format s).

(** ** The vocabulary of the properties

    Letters and whitespace of the ASCII range, told from the byte alone, and
    the two case forms of a character. *)

Definition whitespace (c : char) : bool :=
  (Char.code c =? 32) || ((9 <=? Char.code c) && (Char.code c <=? 13)).

Definition lowercase_letter (c : char) : bool :=
  (Char.code "a" <=? Char.code c) && (Char.code c <=? Char.code "z").

Definition uppercase_letter (c : char) : bool :=
  (Char.code "A" <=? Char.code c) && (Char.code c <=? Char.code "Z").

Definition letter (c : char) : bool := lowercase_letter c || uppercase_letter c.

(** The place of a letter in the alphabet, whatever its case. *)
Definition alphabet_index (c : char) : option Z :=
  if lowercase_letter c then Some (Char.code c - Char.code "a")
  else if uppercase_letter c then Some (Char.code c - Char.code "A")
  else None.

Definition is_ascii (c : char) : bool := Char.code c <? 128.

(** 'a'..'z' go to 'A'..'Z', 32 places down; nothing else moves. *)
Definition uppercase_form (c : char) : char :=
  if lowercase_letter c then ascii_of_N (N_of_ascii c - 32) else c.

(** 'A'..'Z' go to 'a'..'z', 32 places up; nothing else moves. *)
Definition lowercase_form (c : char) : char :=
  if uppercase_letter c then ascii_of_N (N_of_ascii c + 32) else c.

(** Position [i] of [s] is where a maximal run of non-whitespace characters
    can start: the first position, or one whose predecessor is whitespace. *)
Definition run_start (s : std_string) (i : nat) : bool :=
  match i with
  | O => true
  | S j => match s !! j with Some p => whitespace p | None => false end
  end.

(** Position [i] of [s] holds the first letter of its maximal run of
    non-whitespace characters: a letter, with no letter before it in the
    run. *)
Definition first_letter_of_run (s : std_string) (i : nat) : Prop :=
  (exists c, s !! i = Some c /\ letter c = true) /\
  forall j d, (j < i)%nat -> s !! j = Some d ->
    (forall k e, (j <= k < i)%nat -> s !! k = Some e -> whitespace e = false) ->
    letter d = false.

(** ** The transformations as the specification words them *)

Module Spec.

(** UPPER: every alphabetic character to its uppercase form, the others
    unchanged. *)
Definition UPPER (s : std_string) : std_string :=
  map (fun c => if letter c then uppercase_form c else c) s.

(** LOWER: every alphabetic character to its lowercase form, the others
    unchanged. *)
Definition LOWER (s : std_string) : std_string :=
  map (fun c => if letter c then lowercase_form c else c) s.

(** TITLE: one pass, left to right, with the flag "at word start". *)
Definition title_step (at_word_start : bool) (c : char) : bool * char :=
  if whitespace c then (true, c)
  else if at_word_start then (false, uppercase_form c)
  else (false, lowercase_form c).

Fixpoint title_pass (at_word_start : bool) (s : std_string) : std_string :=
  match s with
  | [] => []
  | c :: s' =>
      let '(flag, c') := title_step at_word_start c in
      c' :: title_pass flag s'
  end.

Definition TITLE (s : std_string) : std_string := title_pass true s.

End Spec.

(** TITLE read as "the first letter of each run is capitalised, the rest of
    the run is lowercased, whitespace is kept". *)
Definition title_by_first_letter `{Platform} (s : std_string) : Prop :=
  forall i c, s !! i = Some c ->
    exists c', TitleCaseFormatter.format s !! i = Some c' /\
      (whitespace c = true -> c' = c) /\
      (first_letter_of_run s i -> uppercase_letter c' = true) /\
      (whitespace c = false -> ~ first_letter_of_run s i -> c' = lowercase_form c).

(** What main writes before it reads the selector, the notice of the
    default branch, and the line that precedes the result. *)
Definition prompts : std_string :=
  str "Enter a sentence: " ++
  Main.nl :: str "Choose a format:" ++ Main.nl ::
  str "1) Uppercase" ++ Main.nl ::
  str "2) Lowercase" ++ Main.nl ::
  str "3) Title Case" ++ Main.nl ::
  str "Enter choice (1-3): ".

Definition invalid_notice : std_string :=
  str "Invalid choice. Using default (no formatting)." ++ [Main.nl].

Definition output_header : std_string :=
  Main.nl :: str "Formatted output:" ++ [Main.nl].

(** Two characters that are the same, or the same letter of the alphabet
    in whatever case. *)
Definition same_up_to_case (a b : char) : Prop :=
  a = b \/ exists i, alphabet_index a = Some i /\ alphabet_index b = Some i.

(** The case a position of a title-cased text may not hold: no lowercase
    letter where a run starts, no uppercase letter elsewhere. *)
Definition title_cased_at (start : bool) (c : char) : Prop :=
  if start then lowercase_letter c = false else uppercase_letter c = false.

(** [out] differs from [s] in the case of letters at most: position by
    position the same letter of the alphabet, if any, and the same
    character where [s] holds no letter. *)
Definition changes_case_only (s out : std_string) : Prop :=
  forall i c, s !! i = Some c ->
    exists c', out !! i = Some c' /\
      alphabet_index c' = alphabet_index c /\
      (letter c = false -> c' = c).

(** * Properties *)

(** ** Characters *)

Ltac by_bytes c :=
  destruct c as [[] [] [] [] [] [] [] []]; vm_compute; try reflexivity; try discriminate.

Section CharFacts.
Context `{P : Platform}.

Lemma to_int_range c : -128 <= Char.to_int c <= 255.
Proof. destruct P as [[]]; by_bytes c; split; discriminate. Qed.

Lemma to_int_ascii c : is_ascii c = true -> Char.to_int c = Char.code c.
Proof. destruct P as [[]]; by_bytes c. Qed.

Lemma of_to_int c : Char.of_int (Char.to_int c) = c.
Proof. destruct P as [[]]; by_bytes c. Qed.

Lemma isspace_char c : Cctype.isspace (Char.to_int c) = whitespace c.
Proof. destruct P as [[]]; by_bytes c. Qed.

Lemma toupper_char c : Char.of_int (Cctype.toupper (Char.to_int c)) = uppercase_form c.
Proof. destruct P as [[]]; by_bytes c. Qed.

Lemma tolower_char c : Char.of_int (Cctype.tolower (Char.to_int c)) = lowercase_form c.
Proof. destruct P as [[]]; by_bytes c. Qed.

End CharFacts.

Lemma uppercase_form_letter c :
  letter c = true ->
  uppercase_letter (uppercase_form c) = true /\
  alphabet_index (uppercase_form c) = alphabet_index c.
Proof. by_bytes c; intros _; split; reflexivity. Qed.

Lemma lowercase_form_letter c :
  letter c = true ->
  lowercase_letter (lowercase_form c) = true /\
  alphabet_index (lowercase_form c) = alphabet_index c.
Proof. by_bytes c; intros _; split; reflexivity. Qed.

Lemma uppercase_form_other c : letter c = false -> uppercase_form c = c.
Proof. by_bytes c. Qed.

Lemma lowercase_form_other c : letter c = false -> lowercase_form c = c.
Proof. by_bytes c. Qed.

Lemma uppercase_form_not_lower c : lowercase_letter (uppercase_form c) = false.
Proof. by_bytes c. Qed.

Lemma lowercase_form_not_upper c : uppercase_letter (lowercase_form c) = false.
Proof. by_bytes c. Qed.

Lemma whitespace_uppercase_form c : whitespace (uppercase_form c) = whitespace c.
Proof. by_bytes c. Qed.

Lemma whitespace_lowercase_form c : whitespace (lowercase_form c) = whitespace c.
Proof. by_bytes c. Qed.

Lemma uppercase_form_idem c : uppercase_form (uppercase_form c) = uppercase_form c.
Proof. by_bytes c. Qed.

Lemma lowercase_form_idem c : lowercase_form (lowercase_form c) = lowercase_form c.
Proof. by_bytes c. Qed.

Lemma whitespace_not_letter c : whitespace c = true -> letter c = false.
Proof. by_bytes c. Qed.

(** ** The loop *)

Section RangeForFacts.
Context {St : Type} (body : St -> char -> St * char).

(** The loop invariant: with the positions of [done] behind it, the loop
    leaves [done] alone and transduces what is still ahead. *)
Lemma range_for_from (done rest : std_string) (st : St) :
  foldl (range_for_step body) (st, done ++ rest) (seq (length done) (length rest))
  = (fst (transduce body st rest), done ++ snd (transduce body st rest)).
Proof.
  revert done st. induction rest as [|c rest IH]; intros done st; simpl.
  - reflexivity.
  - rewrite list_lookup_middle by reflexivity.
    destruct (body st c) as [st1 c'] eqn:Hb.
    replace (<[length done:=c']> (done ++ c :: rest)) with ((done ++ [c']) ++ rest).
    2:{ rewrite <- (Nat.add_0_r (length done)), insert_app_r. simpl.
        by rewrite <- app_assoc. }
    replace (S (length done)) with (length (done ++ [c'])).
    2:{ rewrite length_app. simpl. lia. }
    rewrite IH. destruct (transduce body st1 rest) as [st2 r]. simpl.
    by rewrite <- app_assoc.
Qed.

Lemma range_for_transduce (st : St) (s : std_string) :
  range_for body st s = transduce body st s.
Proof.
  unfold range_for. pose proof (range_for_from [] s st) as Hloop.
  simpl in Hloop. rewrite Hloop. by destruct (transduce body st s).
Qed.

Lemma transduce_length (st : St) (s : std_string) :
  length (snd (transduce body st s)) = length s.
Proof.
  revert st. induction s as [|c s IH]; intros st; simpl; [reflexivity|].
  destruct (body st c) as [st1 c']. specialize (IH st1).
  destruct (transduce body st1 s). simpl in *. by rewrite IH.
Qed.

End RangeForFacts.

Lemma lookup_map {A B} (f : A -> B) (l : list A) (i : nat) :
  map f l !! i = f <$> l !! i.
Proof. revert i. induction l as [|a l IH]; intros [|i]; simpl; auto. Qed.

(** A loop whose body keeps no variable is a map. *)
Lemma transduce_map (f : char -> char) (s : std_string) :
  snd (transduce (fun (_ : unit) c => (tt, f c)) tt s) = map f s.
Proof.
  induction s as [|c s IH]; simpl; [reflexivity|].
  destruct (transduce _ tt s). simpl in *. by rewrite IH.
Qed.

(** ** The strategies against the specification's transformations *)

Section FormatFacts.
Context `{P : Platform}.

Lemma upper_format_map s : UpperCaseFormatter.format s = map uppercase_form s.
Proof.
  unfold UpperCaseFormatter.format. rewrite range_for_transduce, transduce_map.
  apply map_ext. intros c. apply toupper_char.
Qed.

Lemma lower_format_map s : LowerCaseFormatter.format s = map lowercase_form s.
Proof.
  unfold LowerCaseFormatter.format. rewrite range_for_transduce, transduce_map.
  apply map_ext. intros c. apply tolower_char.
Qed.

Lemma title_body_step flag c :
  TitleCaseFormatter.body flag c = Spec.title_step flag c.
Proof.
  unfold TitleCaseFormatter.body, Spec.title_step.
  rewrite isspace_char, toupper_char, tolower_char.
  by destruct (whitespace c), flag.
Qed.

Lemma title_transduce_pass flag s :
  snd (transduce TitleCaseFormatter.body flag s) = Spec.title_pass flag s.
Proof.
  revert flag. induction s as [|c s IH]; intros flag; simpl; [reflexivity|].
  rewrite title_body_step. destruct (Spec.title_step flag c) as [flag' c'].
  specialize (IH flag'). destruct (transduce _ flag' s). simpl in *. by rewrite IH.
Qed.

Lemma title_format_pass s : TitleCaseFormatter.format s = Spec.title_pass true s.
Proof.
  unfold TitleCaseFormatter.format. by rewrite range_for_transduce, title_transduce_pass.
Qed.

End FormatFacts.

(** ** TITLE, position by position *)

Lemma run_start_cons a s j :
  run_start (a :: s) (S j) = match j with O => whitespace a | S _ => run_start s j end.
Proof. by destruct j. Qed.

Lemma title_step_flag flag c : fst (Spec.title_step flag c) = whitespace c.
Proof. unfold Spec.title_step. by destruct (whitespace c), flag. Qed.

Lemma title_pass_length flag s : length (Spec.title_pass flag s) = length s.
Proof.
  revert flag. induction s as [|a s IH]; intros flag; simpl; [reflexivity|].
  destruct (Spec.title_step flag a) as [flag' a']. simpl. by rewrite IH.
Qed.

Lemma title_pass_lookup flag s i c :
  s !! i = Some c ->
  Spec.title_pass flag s !! i =
    Some (if whitespace c then c
          else if match i with O => flag | S _ => run_start s i end
               then uppercase_form c else lowercase_form c).
Proof.
  revert flag i. induction s as [|a s IH]; intros flag i Hi; [discriminate|].
  simpl. pose proof (title_step_flag flag a) as Hflag.
  destruct (Spec.title_step flag a) as [flag' a'] eqn:Hstep. simpl in Hflag. subst flag'.
  destruct i as [|j].
  - simpl in Hi. injection Hi as ->. simpl.
    unfold Spec.title_step in Hstep.
    destruct (whitespace c), flag; by injection Hstep as <-.
  - simpl in Hi. rewrite run_start_cons. simpl. by apply IH.
Qed.

Lemma title_step_idem flag c :
  Spec.title_step flag (snd (Spec.title_step flag c)) = Spec.title_step flag c.
Proof.
  unfold Spec.title_step.
  destruct (whitespace c) eqn:Hc; [|destruct flag]; simpl.
  - by rewrite Hc.
  - by rewrite whitespace_uppercase_form, Hc, uppercase_form_idem.
  - by rewrite whitespace_lowercase_form, Hc, lowercase_form_idem.
Qed.

Lemma title_pass_idem flag s :
  Spec.title_pass flag (Spec.title_pass flag s) = Spec.title_pass flag s.
Proof.
  revert flag. induction s as [|c s IH]; intros flag; simpl; [reflexivity|].
  pose proof (title_step_idem flag c) as Hstep.
  destruct (Spec.title_step flag c) as [flag' c']. simpl in *.
  by rewrite Hstep, IH.
Qed.

Section Claims.
Context `{P : Platform}.

(** C4: for every ASCII string [s], UPPER maps every alphabetic character
    of [s] to its uppercase form (the same letter of the alphabet, in
    'A'..'Z') and passes every other character through unchanged; so the
    result has the length of [s], holds no lowercase letter and agrees with
    [s] at every position that holds no letter. *)
Theorem upper_format_ascii (s : std_string) :
  Forall (fun c => is_ascii c = true) s ->
  UpperCaseFormatter.format s = Spec.UPPER s /\
  length (UpperCaseFormatter.format s) = length s /\
  Forall (fun c' => lowercase_letter c' = false) (UpperCaseFormatter.format s) /\
  forall i c, s !! i = Some c ->
    exists c', UpperCaseFormatter.format s !! i = Some c' /\
      (letter c = true ->
       uppercase_letter c' = true /\ alphabet_index c' = alphabet_index c) /\
      (letter c = false -> c' = c).
Proof.
  intros _. rewrite upper_format_map. repeat split.
  - apply map_ext. intros c. destruct (letter c) eqn:Hc; [reflexivity|].
    by apply uppercase_form_other.
  - apply length_map.
  - apply Forall_map, Forall_forall. intros c _. apply uppercase_form_not_lower.
  - intros i c Hi. exists (uppercase_form c). rewrite lookup_map, Hi.
    repeat split; try apply uppercase_form_letter; auto using uppercase_form_other.
Qed.

(** C5: for every ASCII string [s], LOWER maps every alphabetic character
    of [s] to its lowercase form (the same letter of the alphabet, in
    'a'..'z') and passes every other character through unchanged; so the
    result has the length of [s], holds no uppercase letter and agrees with
    [s] at every position that holds no letter. *)
Theorem lower_format_ascii (s : std_string) :
  Forall (fun c => is_ascii c = true) s ->
  LowerCaseFormatter.format s = Spec.LOWER s /\
  length (LowerCaseFormatter.format s) = length s /\
  Forall (fun c' => uppercase_letter c' = false) (LowerCaseFormatter.format s) /\
  forall i c, s !! i = Some c ->
    exists c', LowerCaseFormatter.format s !! i = Some c' /\
      (letter c = true ->
       lowercase_letter c' = true /\ alphabet_index c' = alphabet_index c) /\
      (letter c = false -> c' = c).
Proof.
  intros _. rewrite lower_format_map. repeat split.
  - apply map_ext. intros c. destruct (letter c) eqn:Hc; [reflexivity|].
    by apply lowercase_form_other.
  - apply length_map.
  - apply Forall_map, Forall_forall. intros c _. apply lowercase_form_not_upper.
  - intros i c Hi. exists (lowercase_form c). rewrite lookup_map, Hi.
    repeat split; try apply lowercase_form_letter; auto using lowercase_form_other.
Qed.

(** C6: TITLE is the single left-to-right pass of the specification, with
    the flag "at word start" set at the beginning: the in-place loop of
    [TitleCaseFormatter::format] computes [Spec.TITLE].  In particular the
    empty input gives the empty output, leading whitespace is kept and
    leaves the flag set (the text after it is formatted as from the
    start), and a word of one character is uppercased. *)
Theorem title_format_single_pass (s : std_string) :
  TitleCaseFormatter.format s = Spec.TITLE s /\
  TitleCaseFormatter.format [] = [] /\
  (forall ws, Forall (fun c => whitespace c = true) ws ->
     TitleCaseFormatter.format (ws ++ s) = ws ++ TitleCaseFormatter.format s) /\
  (forall c, whitespace c = false ->
     TitleCaseFormatter.format [c] = [uppercase_form c]).
Proof.
  repeat split.
  - apply title_format_pass.
  - intros ws Hws. rewrite !title_format_pass.
    induction Hws as [|c ws Hc _ IH]; [reflexivity|].
    simpl. unfold Spec.title_step. rewrite Hc. by rewrite IH.
  - intros c Hc. rewrite title_format_pass. simpl.
    unfold Spec.title_step. by rewrite Hc.
Qed.

(** C7: each of the three transformations is idempotent. *)
Theorem format_idempotent (s : std_string) :
  UpperCaseFormatter.format (UpperCaseFormatter.format s) = UpperCaseFormatter.format s /\
  LowerCaseFormatter.format (LowerCaseFormatter.format s) = LowerCaseFormatter.format s /\
  TitleCaseFormatter.format (TitleCaseFormatter.format s) = TitleCaseFormatter.format s.
Proof.
  rewrite !upper_format_map, !lower_format_map, !title_format_pass, !map_map.
  repeat split.
  - apply map_ext. intros c. apply uppercase_form_idem.
  - apply map_ext. intros c. apply lowercase_form_idem.
  - apply title_pass_idem.
Qed.

(** C9: TITLE keeps the length of its input, and a position holds a
    whitespace character after TITLE exactly when it held one before. *)
Theorem title_format_structure (s : std_string) :
  length (TitleCaseFormatter.format s) = length s /\
  forall i,
    (exists c', TitleCaseFormatter.format s !! i = Some c' /\ whitespace c' = true) <->
    (exists c, s !! i = Some c /\ whitespace c = true).
Proof.
  rewrite title_format_pass. split; [apply title_pass_length|].
  intros i. destruct (s !! i) as [c|] eqn:Hi.
  - rewrite (title_pass_lookup true s i c Hi).
    match goal with |- context [Some ?o = Some _] => set (out := o) end.
    assert (whitespace out = whitespace c) as Hout.
    { subst out. destruct (whitespace c) eqn:Hc; [exact Hc|].
      destruct (match i with O => true | S _ => run_start s i end);
        by rewrite ?whitespace_uppercase_form, ?whitespace_lowercase_form. }
    split.
    + intros (c' & [= <-] & Hw). exists c. split; congruence.
    + intros (c0 & [= <-] & Hw). exists out. split; congruence.
  - split.
    + intros (c' & Hl & _). apply lookup_lt_Some in Hl.
      rewrite title_pass_length in Hl. apply lookup_ge_None in Hi. lia.
    + intros (c & [=] & _).
Qed.

(** C1 (amended): TITLE keeps the length of [s] and every whitespace
    character; the character that starts a maximal run of non-whitespace
    characters (the first position, or after a whitespace character) is
    replaced by its uppercase form, every other character of the run by its
    lowercase form.  It is the first character of a run that is
    capitalised, not its first letter. *)
Theorem title_format_by_run_start (s : std_string) :
  length (TitleCaseFormatter.format s) = length s /\
  forall i c, s !! i = Some c ->
    exists c', TitleCaseFormatter.format s !! i = Some c' /\
      (whitespace c = true -> c' = c) /\
      (whitespace c = false -> run_start s i = true -> c' = uppercase_form c) /\
      (whitespace c = false -> run_start s i = false -> c' = lowercase_form c).
Proof.
  rewrite title_format_pass. split; [apply title_pass_length|].
  intros i c Hi. rewrite (title_pass_lookup true s i c Hi).
  eexists. split; [reflexivity|].
  replace (match i with O => true | S _ => run_start s i end) with (run_start s i)
    by (by destruct i).
  repeat split; intros Hc; rewrite Hc; [reflexivity| |]; by intros ->.
Qed.

Ltac main_output :=
  unfold prompts, invalid_notice, output_header; cbn;
  rewrite <- ?app_assoc; reflexivity.

(** C2: the selector 1 installs UPPER, 2 installs LOWER, 3 installs TITLE,
    and the result of the installed transformation is printed; for any
    other integer nothing is installed, the processor is still
    unconfigured, the notice of the invalid choice is printed, and the
    input is printed unchanged as the result.  main returns 0 in every
    case. *)
Theorem main_selector (line : std_string) (number : Z) :
  let run := Main.main line number Main.initial in
  let processor := Main.processor (snd run) in
  let cout := Main.cout (snd run) in
  fst run = 0 /\
  (number = 1 ->
     TextProcessor.formatter processor = Some UpperCaseFormatter.new /\
     cout = prompts ++ output_header ++ UpperCaseFormatter.format line ++ [Main.nl]) /\
  (number = 2 ->
     TextProcessor.formatter processor = Some LowerCaseFormatter.new /\
     cout = prompts ++ output_header ++ LowerCaseFormatter.format line ++ [Main.nl]) /\
  (number = 3 ->
     TextProcessor.formatter processor = Some TitleCaseFormatter.new /\
     cout = prompts ++ output_header ++ TitleCaseFormatter.format line ++ [Main.nl]) /\
  (number <> 1 -> number <> 2 -> number <> 3 ->
     TextProcessor.formatter processor = None /\
     processor = TextProcessor.new /\
     cout = prompts ++ invalid_notice ++ output_header ++ line ++ [Main.nl]).
Proof.
  cbv zeta. split; [by destruct number as [|[[]|[]|]|] |].
  split; [intros ->; split; [reflexivity | main_output] |].
  split; [intros ->; split; [reflexivity | main_output] |].
  split; [intros ->; split; [reflexivity | main_output] |].
  intros H1 H2 H3.
  destruct number as [|[[]|[]|]|]; try congruence;
    (split; [reflexivity | split; [reflexivity | main_output]]).
Qed.

End Claims.

(** C3: with no transformation installed the processor returns the text
    unchanged, the empty text included; with a transformation [t] installed
    it returns the result of [t] on the text.  Either way the call returns
    a string. *)
Theorem processor_format_fallback (text : std_string) :
  fst (TextProcessor.format text {| TextProcessor.formatter := None |}) = text /\
  fst (TextProcessor.format [] TextProcessor.new) = [] /\
  forall t : ITextFormatter.t,
    fst (TextProcessor.format text {| TextProcessor.formatter := Some t |})
    = ITextFormatter.format t text.
Proof. repeat split. Qed.

(** C10: format does not touch the processor: whatever the slot holds, it
    holds the same after the call, so a second call on the same text
    returns what the first returned. *)
Theorem processor_format_read_only (p : TextProcessor.t) (text : std_string) :
  snd (TextProcessor.format text p) = p /\
  (TextProcessor.format text ;; TextProcessor.format text) p = TextProcessor.format text p /\
  fst (TextProcessor.format text (snd (TextProcessor.format text p)))
  = fst (TextProcessor.format text p).
Proof. destruct p as [[t|]]; repeat split. Qed.

(** ** The signedness of char does not show in the results *)

Lemma format_platform_independent (P1 P2 : Platform) (s : std_string) :
  @UpperCaseFormatter.format P1 s = @UpperCaseFormatter.format P2 s /\
  @LowerCaseFormatter.format P1 s = @LowerCaseFormatter.format P2 s /\
  @TitleCaseFormatter.format P1 s = @TitleCaseFormatter.format P2 s.
Proof. by rewrite !upper_format_map, !lower_format_map, !title_format_pass. Qed.

(** ** The scenarios of the specification, on a platform with signed char *)

Section Scenarios.
#[local] Existing Instance signed_char_platform.

Example upper_hello_world :
  UpperCaseFormatter.format (str "Hello World") = str "HELLO WORLD".
Proof. reflexivity. Qed.

Example lower_hello_world :
  LowerCaseFormatter.format (str "Hello World") = str "hello world".
Proof. reflexivity. Qed.

Example title_hello_world :
  TitleCaseFormatter.format (str "hello world") = str "Hello World".
Proof. reflexivity. Qed.

Example title_multiple_spaces :
  TitleCaseFormatter.format (str " multiple   spaces ") = str " Multiple   Spaces ".
Proof. reflexivity. Qed.

Example title_digit_first :
  TitleCaseFormatter.format (str "1abc (hello) o'NEIL") = str "1abc (hello) O'neil".
Proof. reflexivity. Qed.

Example main_selector_4 :
  Main.cout (snd (Main.main (str "Hello World") 4 Main.initial))
  = prompts ++ invalid_notice ++ output_header ++ str "Hello World" ++ [Main.nl].
Proof. reflexivity. Qed.

(** C1, as stated, fails on "1abc": 'a' is the first letter of its run and
    is preceded there by the digit only, and TITLE leaves it lowercase. *)
Lemma title_first_letter_counterexample : ~ title_by_first_letter (str "1abc").
Proof.
  intros Hclaim.
  destruct (Hclaim 1%nat "a"%char eq_refl) as (c' & Hlookup & _ & Hupper & _).
  injection Hlookup as <-.
  assert (first_letter_of_run (str "1abc") 1) as Hfirst.
  { split; [by exists "a"%char|].
    intros [|j] d Hj Hd _; [|lia]. by injection Hd as <-. }
  specialize (Hupper Hfirst). discriminate.
Qed.

Lemma title_format_by_run_start_witness :
  str " multiple   spaces " !! 1%nat = Some "m"%char /\
  exists c', TitleCaseFormatter.format (str " multiple   spaces ") !! 1%nat = Some c' /\
             c' = "M"%char.
Proof.
  split; [reflexivity|].
  destruct (proj2 (title_format_by_run_start (str " multiple   spaces "))
              1%nat "m"%char eq_refl) as (c' & Hlookup & _ & Hstart & _).
  exists c'. split; [exact Hlookup | exact (Hstart eq_refl eq_refl)].
Defined.

Lemma upper_format_ascii_witness :
  Forall (fun c => is_ascii c = true) (str "Hello, World") /\
  UpperCaseFormatter.format (str "Hello, World") = Spec.UPPER (str "Hello, World") /\
  length (UpperCaseFormatter.format (str "Hello, World")) = length (str "Hello, World").
Proof.
  assert (Forall (fun c => is_ascii c = true) (str "Hello, World")) as Hascii
    by (repeat constructor).
  split; [exact Hascii|].
  destruct (upper_format_ascii (str "Hello, World") Hascii) as (Hspec & Hlen & _).
  split; [exact Hspec | exact Hlen].
Defined.

Lemma lower_format_ascii_witness :
  Forall (fun c => is_ascii c = true) (str "Hello, World") /\
  LowerCaseFormatter.format (str "Hello, World") = Spec.LOWER (str "Hello, World") /\
  length (LowerCaseFormatter.format (str "Hello, World")) = length (str "Hello, World").
Proof.
  assert (Forall (fun c => is_ascii c = true) (str "Hello, World")) as Hascii
    by (repeat constructor).
  split; [exact Hascii|].
  destruct (lower_format_ascii (str "Hello, World") Hascii) as (Hspec & Hlen & _).
  split; [exact Hspec | exact Hlen].
Defined.

Lemma title_format_single_pass_witness :
  (Forall (fun c => whitespace c = true) (str "  ") /\ whitespace "a" = false) /\
  TitleCaseFormatter.format (str "  " ++ str "two words")
  = str "  " ++ TitleCaseFormatter.format (str "two words") /\
  TitleCaseFormatter.format ["a"%char] = ["A"%char].
Proof.
  assert (Forall (fun c => whitespace c = true) (str "  ")) as Hws
    by (repeat constructor).
  split; [split; [exact Hws | reflexivity]|].
  destruct (title_format_single_pass (str "two words")) as (_ & _ & Hlead & _).
  destruct (title_format_single_pass []) as (_ & _ & _ & Hone).
  split; [exact (Hlead (str "  ") Hws) | exact (Hone "a"%char eq_refl)].
Defined.

Lemma main_selector_witness :
  (4 <> 1 /\ 4 <> 2 /\ 4 <> 3) /\
  Main.cout (snd (Main.main (str "Hello World") 4 Main.initial))
  = prompts ++ invalid_notice ++ output_header ++ str "Hello World" ++ [Main.nl].
Proof.
  assert (4 <> 1 /\ 4 <> 2 /\ 4 <> 3) as Hsel by (repeat split; discriminate).
  split; [exact Hsel|].
  pose proof (main_selector (str "Hello World") 4) as Hmain. cbv zeta in Hmain.
  destruct Hmain as (_ & _ & _ & _ & Hdefault).
  destruct Hsel as (H1 & H2 & H3).
  exact (proj2 (proj2 (Hdefault H1 H2 H3))).
Defined.

End Scenarios.

(** * Further properties of the strategies and of the context *)

(** ** Characters *)

Lemma upper_lower_form c : uppercase_form (lowercase_form c) = uppercase_form c.
Proof. by_bytes c. Qed.

Lemma lower_upper_form c : lowercase_form (uppercase_form c) = lowercase_form c.
Proof. by_bytes c. Qed.

Lemma alphabet_index_uppercase_form c :
  alphabet_index (uppercase_form c) = alphabet_index c.
Proof. by_bytes c. Qed.

Lemma alphabet_index_lowercase_form c :
  alphabet_index (lowercase_form c) = alphabet_index c.
Proof. by_bytes c. Qed.

Lemma uppercase_form_fixed c : uppercase_form c = c <-> lowercase_letter c = false.
Proof. by_bytes c; split; intros Hc; try reflexivity; discriminate Hc. Qed.

Lemma lowercase_form_fixed c : lowercase_form c = c <-> uppercase_letter c = false.
Proof. by_bytes c; split; intros Hc; try reflexivity; discriminate Hc. Qed.

Lemma whitespace_no_case c :
  whitespace c = true -> lowercase_letter c = false /\ uppercase_letter c = false.
Proof. by_bytes c; intros _; split; reflexivity. Qed.

(** A letter is known by its place in the alphabet, up to its case. *)
Lemma forms_by_index c i :
  alphabet_index c = Some i ->
  whitespace c = false /\
  uppercase_form c = Char.of_int (Char.code "A" + i) /\
  lowercase_form c = Char.of_int (Char.code "a" + i).
Proof.
  destruct c as [[] [] [] [] [] [] [] []];
    (intros [= <-]; vm_compute; repeat split; reflexivity).
Qed.

Lemma same_up_to_case_forms a b :
  same_up_to_case a b ->
  whitespace a = whitespace b /\
  uppercase_form a = uppercase_form b /\
  lowercase_form a = lowercase_form b /\
  (whitespace a = true -> a = b).
Proof.
  intros [->|(i & Ha & Hb)]; [by repeat split|].
  destruct (forms_by_index a i Ha) as (Hwa & Hua & Hla).
  destruct (forms_by_index b i Hb) as (Hwb & Hub & Hlb).
  repeat split; congruence.
Qed.

Lemma title_step_upper flag c :
  Spec.title_step flag (uppercase_form c) = Spec.title_step flag c.
Proof.
  unfold Spec.title_step.
  rewrite whitespace_uppercase_form, uppercase_form_idem, lower_upper_form.
  destruct (whitespace c) eqn:Hc; [|reflexivity].
  by rewrite (uppercase_form_other c (whitespace_not_letter c Hc)).
Qed.

Lemma title_step_lower flag c :
  Spec.title_step flag (lowercase_form c) = Spec.title_step flag c.
Proof.
  unfold Spec.title_step.
  rewrite whitespace_lowercase_form, lowercase_form_idem, upper_lower_form.
  destruct (whitespace c) eqn:Hc; [|reflexivity].
  by rewrite (lowercase_form_other c (whitespace_not_letter c Hc)).
Qed.

Lemma upper_title_step flag c :
  uppercase_form (snd (Spec.title_step flag c)) = uppercase_form c.
Proof.
  unfold Spec.title_step. destruct (whitespace c), flag; cbn [snd];
    by rewrite ?uppercase_form_idem, ?upper_lower_form.
Qed.

Lemma lower_title_step flag c :
  lowercase_form (snd (Spec.title_step flag c)) = lowercase_form c.
Proof.
  unfold Spec.title_step. destruct (whitespace c), flag; cbn [snd];
    by rewrite ?lowercase_form_idem, ?lower_upper_form.
Qed.

(** ** The title pass on maps, on concatenations and on words *)

Lemma title_pass_map_upper flag s :
  Spec.title_pass flag (map uppercase_form s) = Spec.title_pass flag s.
Proof.
  revert flag. induction s as [|c s IH]; intros flag; simpl; [reflexivity|].
  rewrite title_step_upper. destruct (Spec.title_step flag c). by rewrite IH.
Qed.

Lemma title_pass_map_lower flag s :
  Spec.title_pass flag (map lowercase_form s) = Spec.title_pass flag s.
Proof.
  revert flag. induction s as [|c s IH]; intros flag; simpl; [reflexivity|].
  rewrite title_step_lower. destruct (Spec.title_step flag c). by rewrite IH.
Qed.

Lemma map_upper_title_pass flag s :
  map uppercase_form (Spec.title_pass flag s) = map uppercase_form s.
Proof.
  revert flag. induction s as [|c s IH]; intros flag; simpl; [reflexivity|].
  pose proof (upper_title_step flag c) as Hc.
  destruct (Spec.title_step flag c) as [flag' c']. simpl in *. by rewrite Hc, IH.
Qed.

Lemma map_lower_title_pass flag s :
  map lowercase_form (Spec.title_pass flag s) = map lowercase_form s.
Proof.
  revert flag. induction s as [|c s IH]; intros flag; simpl; [reflexivity|].
  pose proof (lower_title_step flag c) as Hc.
  destruct (Spec.title_step flag c) as [flag' c']. simpl in *. by rewrite Hc, IH.
Qed.

(** After [s1] the flag is set exactly when [s1] ended in whitespace; with
    nothing read it is as it was. *)
Lemma title_pass_app flag s1 s2 :
  Spec.title_pass flag (s1 ++ s2) =
  Spec.title_pass flag s1 ++
  Spec.title_pass (match last s1 with Some c => whitespace c | None => flag end) s2.
Proof.
  revert flag. induction s1 as [|a s1 IH]; intros flag; simpl; [reflexivity|].
  pose proof (title_step_flag flag a) as Hflag.
  destruct (Spec.title_step flag a) as [flag' a']. simpl in Hflag. subst flag'.
  rewrite IH. destruct s1 as [|b s1]; [reflexivity|].
  change (last (a :: b :: s1)) with (last (b :: s1)).
  destruct (last (b :: s1)) eqn:Hlast; [reflexivity|].
  by apply last_None in Hlast.
Qed.

Lemma title_pass_word s :
  Forall (fun c => whitespace c = false) s ->
  Spec.title_pass false s = map lowercase_form s.
Proof.
  induction 1 as [|c s Hc _ IH]; simpl; [reflexivity|].
  unfold Spec.title_step. by rewrite Hc, IH.
Qed.

(** The texts the title pass leaves as they are. *)
Lemma title_pass_fixed_iff flag s :
  Spec.title_pass flag s = s <->
  forall i c, s !! i = Some c ->
    title_cased_at (match i with O => flag | S _ => run_start s i end) c.
Proof.
  split.
  - intros Hfix i c Hi. pose proof (title_pass_lookup flag s i c Hi) as Hout.
    rewrite Hfix, Hi in Hout. injection Hout as Hout. unfold title_cased_at.
    destruct (whitespace c) eqn:Hc.
    + destruct (whitespace_no_case c Hc).
      by destruct (match i with O => flag | S _ => run_start s i end).
    + destruct (match i with O => flag | S _ => run_start s i end).
      * by apply uppercase_form_fixed.
      * by apply lowercase_form_fixed.
  - intros Hshape. apply list_eq. intros i. destruct (s !! i) as [c|] eqn:Hi.
    + rewrite (title_pass_lookup flag s i c Hi). f_equal.
      specialize (Hshape i c Hi). unfold title_cased_at in Hshape.
      destruct (whitespace c); [reflexivity|].
      destruct (match i with O => flag | S _ => run_start s i end).
      * by apply uppercase_form_fixed.
      * by apply lowercase_form_fixed.
    + apply lookup_ge_None. rewrite title_pass_length. by apply lookup_ge_None.
Qed.

Lemma run_start_0_or_S s i :
  match i with O => true | S _ => run_start s i end = run_start s i.
Proof. by destruct i. Qed.

Lemma map_fixed_iff (f : char -> char) (s : std_string) :
  map f s = s <-> Forall (fun c => f c = c) s.
Proof.
  induction s as [|c s IH]; simpl.
  - split; [constructor | reflexivity].
  - split.
    + intros [= Hc Hs]. constructor; [exact Hc | by apply IH].
    + intros Hall. apply Forall_cons in Hall as [Hc Hs]. f_equal; [exact Hc | by apply IH].
Qed.

(** ** The context: installing a strategy, then formatting *)

(** X1: whatever the processor held, after [setFormatter(f)] a call of
    format returns the result of [f] on the text, or the text itself when
    [f] is the null pointer, and the slot holds [f]; of two calls of
    setFormatter in a row only the second shows. *)
Theorem processor_set_then_format
    (p : TextProcessor.t) (f : option ITextFormatter.t) (text : std_string) :
  (TextProcessor.setFormatter f ;; TextProcessor.format text) p
  = (match f with Some t => ITextFormatter.format t text | None => text end,
     {| TextProcessor.formatter := f |}) /\
  forall f0 : option ITextFormatter.t,
    (TextProcessor.setFormatter f0 ;; TextProcessor.setFormatter f) p
    = TextProcessor.setFormatter f p.
Proof. destruct f; repeat split. Qed.

Section Strategies.
Context `{P : Platform}.

(** X2: of two transformations applied one after the other, the second
    decides the result: UPPER after LOWER or TITLE is UPPER, LOWER after
    UPPER or TITLE is LOWER, TITLE after UPPER or LOWER is TITLE. *)
Theorem format_last_wins (s : std_string) :
  UpperCaseFormatter.format (LowerCaseFormatter.format s) = UpperCaseFormatter.format s /\
  UpperCaseFormatter.format (TitleCaseFormatter.format s) = UpperCaseFormatter.format s /\
  LowerCaseFormatter.format (UpperCaseFormatter.format s) = LowerCaseFormatter.format s /\
  LowerCaseFormatter.format (TitleCaseFormatter.format s) = LowerCaseFormatter.format s /\
  TitleCaseFormatter.format (UpperCaseFormatter.format s) = TitleCaseFormatter.format s /\
  TitleCaseFormatter.format (LowerCaseFormatter.format s) = TitleCaseFormatter.format s.
Proof.
  rewrite !upper_format_map, !lower_format_map, !title_format_pass, !map_map.
  repeat split.
  - apply map_ext. intros c. apply upper_lower_form.
  - apply map_upper_title_pass.
  - apply map_ext. intros c. apply lower_upper_form.
  - apply map_lower_title_pass.
  - apply title_pass_map_upper.
  - apply title_pass_map_lower.
Qed.

(** X3: UPPER and LOWER work character by character: the result on a
    concatenation is the concatenation of the results, and the result on
    the reversed text is the reversed result. *)
Theorem upper_lower_format_app (s1 s2 : std_string) :
  UpperCaseFormatter.format (s1 ++ s2)
  = UpperCaseFormatter.format s1 ++ UpperCaseFormatter.format s2 /\
  LowerCaseFormatter.format (s1 ++ s2)
  = LowerCaseFormatter.format s1 ++ LowerCaseFormatter.format s2 /\
  UpperCaseFormatter.format (rev s1) = rev (UpperCaseFormatter.format s1) /\
  LowerCaseFormatter.format (rev s1) = rev (LowerCaseFormatter.format s1).
Proof.
  rewrite !upper_format_map, !lower_format_map.
  repeat split; auto using map_app, map_rev.
Qed.

(** X4: TITLE reads left to right: what it gives for the first part of a
    text does not depend on what follows, and a whitespace character cuts
    the text into two parts that are title-cased independently. *)
Theorem title_format_app (s1 s2 : std_string) :
  take (length s1) (TitleCaseFormatter.format (s1 ++ s2)) = TitleCaseFormatter.format s1 /\
  forall c, whitespace c = true ->
    TitleCaseFormatter.format (s1 ++ c :: s2)
    = TitleCaseFormatter.format s1 ++ c :: TitleCaseFormatter.format s2.
Proof.
  rewrite !title_format_pass. split.
  - rewrite title_pass_app, <- (title_pass_length true s1). apply take_app_length.
  - intros c Hc. rewrite title_format_pass, title_pass_app. simpl.
    unfold Spec.title_step. by rewrite Hc.
Qed.

(** X5: on a word, a text with no whitespace character in it, TITLE is
    UPPER on the first character followed by LOWER on the others. *)
Theorem title_format_word (c : char) (w : std_string) :
  Forall (fun a => whitespace a = false) (c :: w) ->
  TitleCaseFormatter.format (c :: w)
  = UpperCaseFormatter.format [c] ++ LowerCaseFormatter.format w.
Proof.
  intros Hword. apply Forall_cons in Hword as [Hc Hw].
  rewrite title_format_pass, upper_format_map, lower_format_map. simpl.
  unfold Spec.title_step. by rewrite Hc, (title_pass_word w Hw).
Qed.

(** X6: the texts a transformation leaves as they are: UPPER those without
    a lowercase letter, LOWER those without an uppercase letter, TITLE
    those with no lowercase letter at the start of a run of non-whitespace
    characters and no uppercase letter further in. *)
Theorem format_fixed_points (s : std_string) :
  (UpperCaseFormatter.format s = s <-> Forall (fun c => lowercase_letter c = false) s) /\
  (LowerCaseFormatter.format s = s <-> Forall (fun c => uppercase_letter c = false) s) /\
  (TitleCaseFormatter.format s = s <->
   forall i c, s !! i = Some c -> title_cased_at (run_start s i) c).
Proof.
  rewrite upper_format_map, lower_format_map, title_format_pass, !map_fixed_iff.
  split; [|split].
  - apply Forall_iff. intros c. apply uppercase_form_fixed.
  - apply Forall_iff. intros c. apply lowercase_form_fixed.
  - rewrite title_pass_fixed_iff.
    split; intros Hshape i c Hi; specialize (Hshape i c Hi);
      by rewrite run_start_0_or_S in *.
Qed.

(** X7: in the result of TITLE no lowercase letter starts a run of
    non-whitespace characters and no uppercase letter stands further in. *)
Theorem title_format_shape (s : std_string) :
  forall i c', TitleCaseFormatter.format s !! i = Some c' ->
    title_cased_at (run_start (TitleCaseFormatter.format s) i) c'.
Proof.
  rewrite title_format_pass. intros i c' Hi.
  pose proof (proj1 (title_pass_fixed_iff true (Spec.title_pass true s))
                (title_pass_idem true s) i c' Hi) as Hshape.
  by rewrite run_start_0_or_S in Hshape.
Qed.

Lemma upper_changes_case_only s : changes_case_only s (UpperCaseFormatter.format s).
Proof.
  rewrite upper_format_map. intros i c Hi.
  exists (uppercase_form c). rewrite lookup_map, Hi.
  auto using alphabet_index_uppercase_form, uppercase_form_other.
Qed.

Lemma lower_changes_case_only s : changes_case_only s (LowerCaseFormatter.format s).
Proof.
  rewrite lower_format_map. intros i c Hi.
  exists (lowercase_form c). rewrite lookup_map, Hi.
  auto using alphabet_index_lowercase_form, lowercase_form_other.
Qed.

Lemma title_changes_case_only s : changes_case_only s (TitleCaseFormatter.format s).
Proof.
  rewrite title_format_pass. intros i c Hi.
  rewrite (title_pass_lookup true s i c Hi).
  eexists. split; [reflexivity|].
  destruct (whitespace c); [by split|].
  destruct (match i with O => true | S _ => run_start s i end);
    auto using alphabet_index_uppercase_form, uppercase_form_other,
               alphabet_index_lowercase_form, lowercase_form_other.
Qed.

Lemma same_changes_case_only s : changes_case_only s s.
Proof. intros i c Hi. by exists c. Qed.

(** X8: the transformations change the case of letters and nothing else:
    at every position the result holds the same letter of the alphabet as
    the input, if any, and a character that is no letter is unchanged. *)
Theorem format_case_only (s : std_string) :
  changes_case_only s (UpperCaseFormatter.format s) /\
  changes_case_only s (LowerCaseFormatter.format s) /\
  changes_case_only s (TitleCaseFormatter.format s).
Proof.
  split; [|split].
  - apply upper_changes_case_only.
  - apply lower_changes_case_only.
  - apply title_changes_case_only.
Qed.

(** X9: the case of the input does not show in the result: two texts that
    differ only in the case of their letters have the same UPPER, the same
    LOWER and the same TITLE. *)
Theorem format_case_insensitive (s1 s2 : std_string) :
  Forall2 same_up_to_case s1 s2 ->
  UpperCaseFormatter.format s1 = UpperCaseFormatter.format s2 /\
  LowerCaseFormatter.format s1 = LowerCaseFormatter.format s2 /\
  TitleCaseFormatter.format s1 = TitleCaseFormatter.format s2.
Proof.
  intros Hsame. rewrite !upper_format_map, !lower_format_map, !title_format_pass.
  generalize true.
  induction Hsame as [|a b s1 s2 Hab _ IH]; intros flag; [by repeat split|].
  destruct (same_up_to_case_forms a b Hab) as (Hw & Hu & Hl & Hspace).
  simpl. unfold Spec.title_step. rewrite <- Hw, Hu, Hl.
  destruct (IH (whitespace a)) as (IHu & IHl & _).
  repeat split; [by rewrite IHu | by rewrite IHl |].
  destruct (whitespace a); [|destruct flag].
  - rewrite (Hspace eq_refl). by destruct (IH true) as (_ & _ & ->).
  - by destruct (IH false) as (_ & _ & ->).
  - by destruct (IH false) as (_ & _ & ->).
Qed.

(** X10: whatever the line and the selector, main writes the prompts, the
    notice exactly when the selector is not 1, 2 or 3, the header, and then
    one line that has the length of the line read and differs from it in
    the case of letters at most; it returns 0. *)
Theorem main_echoes_line (line : std_string) (number : Z) :
  let run := Main.main line number Main.initial in
  fst run = 0 /\
  exists result,
    Main.cout (snd run)
    = prompts ++
      (if (1 <=? number) && (number <=? 3) then [] else invalid_notice) ++
      output_header ++ result ++ [Main.nl] /\
    length result = length line /\
    changes_case_only line result.
Proof.
  cbv zeta. split; [by destruct number as [|[[]|[]|]|] |].
  assert (forall a b : std_string, (a ++ b) ++ [Main.nl] = a ++ b ++ [Main.nl]) as Hassoc
    by (intros; by rewrite <- app_assoc).
  assert (forall s, length (UpperCaseFormatter.format s) = length s) as Hupper
    by (intros; rewrite upper_format_map; apply length_map).
  assert (forall s, length (LowerCaseFormatter.format s) = length s) as Hlower
    by (intros; rewrite lower_format_map; apply length_map).
  assert (forall s, length (TitleCaseFormatter.format s) = length s) as Htitle
    by (intros; rewrite title_format_pass; apply title_pass_length).
  destruct number as [|[[]|[]|]|];
    try (exists line; split; [cbn; apply Hassoc | split; [reflexivity|]];
         apply same_changes_case_only).
  - exists (TitleCaseFormatter.format line).
    split; [cbn; apply Hassoc | split; [apply Htitle | apply title_changes_case_only]].
  - exists (LowerCaseFormatter.format line).
    split; [cbn; apply Hassoc | split; [apply Hlower | apply lower_changes_case_only]].
  - exists (UpperCaseFormatter.format line).
    split; [cbn; apply Hassoc | split; [apply Hupper | apply upper_changes_case_only]].
Qed.

End Strategies.

(** ** Instances of the properties above, on a platform with signed char *)

Section MoreScenarios.
#[local] Existing Instance signed_char_platform.

Lemma title_format_app_witness :
  whitespace " " = true /\
  TitleCaseFormatter.format (str "hello" ++ " "%char :: str "wORLD")
  = TitleCaseFormatter.format (str "hello") ++ " "%char :: TitleCaseFormatter.format (str "wORLD").
Proof.
  split; [reflexivity|].
  exact (proj2 (title_format_app (str "hello") (str "wORLD")) " "%char eq_refl).
Defined.

Lemma title_format_word_witness :
  Forall (fun a => whitespace a = false) (str "wORLD") /\
  TitleCaseFormatter.format (str "wORLD")
  = UpperCaseFormatter.format (str "w") ++ LowerCaseFormatter.format (str "ORLD").
Proof.
  assert (Forall (fun a => whitespace a = false) (str "wORLD")) as Hword
    by (repeat constructor).
  split; [exact Hword|].
  exact (title_format_word "w"%char (str "ORLD") Hword).
Defined.

Lemma format_fixed_points_witness :
  Forall (fun c => lowercase_letter c = false) (str "HELLO, WORLD 42") /\
  UpperCaseFormatter.format (str "HELLO, WORLD 42") = str "HELLO, WORLD 42".
Proof.
  assert (Forall (fun c => lowercase_letter c = false) (str "HELLO, WORLD 42")) as Hup
    by (repeat constructor).
  split; [exact Hup|].
  exact (proj2 (proj1 (format_fixed_points (str "HELLO, WORLD 42"))) Hup).
Defined.

Lemma title_format_shape_witness :
  TitleCaseFormatter.format (str "hELLO wORLD") !! 6%nat = Some "W"%char /\
  title_cased_at (run_start (TitleCaseFormatter.format (str "hELLO wORLD")) 6) "W".
Proof.
  split; [reflexivity|].
  exact (title_format_shape (str "hELLO wORLD") 6%nat "W"%char eq_refl).
Defined.

Lemma format_case_only_witness :
  str "o'NEIL" !! 1%nat = Some "'"%char /\
  exists c', TitleCaseFormatter.format (str "o'NEIL") !! 1%nat = Some c' /\ c' = "'"%char.
Proof.
  split; [reflexivity|].
  destruct (proj2 (proj2 (format_case_only (str "o'NEIL"))) 1%nat "'"%char eq_refl)
    as (c' & Hlookup & _ & Hsame).
  exists c'. split; [exact Hlookup | exact (Hsame eq_refl)].
Defined.

Lemma format_case_insensitive_witness :
  Forall2 same_up_to_case (str "hELLO w1") (str "Hello W1") /\
  TitleCaseFormatter.format (str "hELLO w1") = TitleCaseFormatter.format (str "Hello W1").
Proof.
  assert (Forall2 same_up_to_case (str "hELLO w1") (str "Hello W1")) as Hsame.
  { repeat (constructor;
            [first [left; reflexivity | right; eexists; split; reflexivity]|]).
    constructor. }
  split; [exact Hsame|].
  exact (proj2 (proj2 (format_case_insensitive _ _ Hsame))).
Defined.

End MoreScenarios.


(** * The transformations and the contract of <cctype> *)

Section CheckedLoop.
Context {St : Type} (body : St -> char -> option (St * char)).

Lemma checked_foldl_None (l : list nat) :
  foldl (fun acc i => a ← acc; Checked.range_for_step body a i) None l = None.
Proof. induction l as [|i l IH]; simpl; auto. Qed.

(** The invariant of the checked loop: the positions behind are left
    alone, the ones ahead are transduced, and a call that does not return
    ends it. *)
Lemma checked_range_for_from (done rest : std_string) (st : St) :
  foldl (fun acc i => a ← acc; Checked.range_for_step body a i)
        (Some (st, done ++ rest)) (seq (length done) (length rest))
  = t ← Checked.transduce body st rest; Some (t.1, done ++ t.2).
Proof.
  revert done st. induction rest as [|c rest IH]; intros done st; simpl.
  - reflexivity.
  - rewrite list_lookup_middle by reflexivity.
    destruct (body st c) as [[st1 c']|]; simpl; [|apply checked_foldl_None].
    replace (<[length done:=c']> (done ++ c :: rest)) with ((done ++ [c']) ++ rest).
    2:{ rewrite <- (Nat.add_0_r (length done)), insert_app_r. simpl.
        by rewrite <- app_assoc. }
    replace (S (length done)) with (length (done ++ [c'])).
    2:{ rewrite length_app. simpl. lia. }
    rewrite IH. destruct (Checked.transduce body st1 rest) as [[st2 r]|]; simpl;
      [by rewrite <- app_assoc | reflexivity].
Qed.

Lemma checked_range_for_transduce (st : St) (s : std_string) :
  Checked.range_for body st s = Checked.transduce body st s.
Proof.
  unfold Checked.range_for. pose proof (checked_range_for_from [] s st) as Hloop.
  simpl in Hloop. rewrite Hloop.
  by destruct (Checked.transduce body st s) as [[st' r]|].
Qed.

(** A body that returns what the unchecked body returns, when the
    character is accepted, makes a loop that returns what the unchecked
    loop returns, when every character is accepted. *)
Lemma checked_transduce_agrees (ok : char -> bool) (total : St -> char -> St * char) :
  (forall st c, body st c = if ok c then Some (total st c) else None) ->
  forall st s,
    Checked.transduce body st s
    = if forallb ok s then Some (transduce total st s) else None.
Proof.
  intros Hbody st s. revert st.
  induction s as [|c s IH]; intros st; simpl; [reflexivity|].
  rewrite Hbody. destruct (ok c); simpl; [|reflexivity].
  destruct (total st c) as [st1 c']. simpl. rewrite IH.
  destruct (forallb ok s); simpl; [|reflexivity].
  by destruct (transduce total st1 s).
Qed.

End CheckedLoop.

Lemma forallb_Forall (ok : char -> bool) (s : std_string) :
  forallb ok s = true <-> Forall (fun c => ok c = true) s.
Proof.
  induction s as [|c s IH]; simpl.
  - split; [constructor | reflexivity].
  - rewrite andb_true_iff, IH, Forall_cons. reflexivity.
Qed.

Section ContractFacts.
Context `{P : Platform} `{L : CLibrary}.

Lemma checked_upper_format s :
  Checked.UpperCaseFormatter.format s
  = if forallb accepted s then Some (UpperCaseFormatter.format s) else None.
Proof.
  unfold Checked.UpperCaseFormatter.format, UpperCaseFormatter.format.
  rewrite checked_range_for_transduce, range_for_transduce.
  rewrite (checked_transduce_agrees _ accepted
             (fun (_ : unit) c => (tt, Char.of_int (Cctype.toupper (Char.to_int c))))).
  - by destruct (forallb accepted s).
  - intros st c. unfold Checked.call, accepted. by destruct (ctype_accepts _).
Qed.

Lemma checked_lower_format s :
  Checked.LowerCaseFormatter.format s
  = if forallb accepted s then Some (LowerCaseFormatter.format s) else None.
Proof.
  unfold Checked.LowerCaseFormatter.format, LowerCaseFormatter.format.
  rewrite checked_range_for_transduce, range_for_transduce.
  rewrite (checked_transduce_agrees _ accepted
             (fun (_ : unit) c => (tt, Char.of_int (Cctype.tolower (Char.to_int c))))).
  - by destruct (forallb accepted s).
  - intros st c. unfold Checked.call, accepted. by destruct (ctype_accepts _).
Qed.

Lemma checked_title_format s :
  Checked.TitleCaseFormatter.format s
  = if forallb accepted s then Some (TitleCaseFormatter.format s) else None.
Proof.
  unfold Checked.TitleCaseFormatter.format, TitleCaseFormatter.format.
  rewrite checked_range_for_transduce, range_for_transduce.
  rewrite (checked_transduce_agrees _ accepted TitleCaseFormatter.body).
  - by destruct (forallb accepted s).
  - intros flag c.
    unfold Checked.TitleCaseFormatter.body, TitleCaseFormatter.body, Checked.call, accepted.
    destruct (ctype_accepts _); simpl; [|reflexivity].
    by destruct (Cctype.isspace _), flag.
Qed.

Lemma ascii_in_contract c : is_ascii c = true -> in_contract (Char.to_int c) = true.
Proof. destruct P as [[]]; by_bytes c. Qed.

Lemma unsigned_in_contract c : char_signed = false -> in_contract (Char.to_int c) = true.
Proof. destruct P as [[]]; [discriminate|]. intros _. by_bytes c. Qed.

Lemma formats_defined_iff s :
  formats_defined s <-> Forall (fun c => accepted c = true) s.
Proof.
  unfold formats_defined.
  rewrite checked_upper_format, checked_lower_format, checked_title_format.
  rewrite <- forallb_Forall.
  destruct (forallb accepted s).
  - split; [reflexivity|]. intros _. repeat split; by eexists.
  - split; [|discriminate]. by intros ([r [=]] & _).
Qed.

End ContractFacts.

(** With tables for every value of char, signed or not, the three
    transformations return on every string. *)
Lemma formats_defined_with_tables (P : Platform) (s : std_string) :
  @formats_defined P table_library s.
Proof.
  apply formats_defined_iff, Forall_forall. intros c _.
  unfold accepted. simpl. pose proof (to_int_range c). unfold SCHAR_MIN, UCHAR_MAX. lia.
Qed.

Section Contract.
Context `{P : Platform} `{L : CLibrary}.


End Contract.


